(** Verification of the segmentation core of the detailed-explanation plugin
    ([src/plugin.py], class [DetailedExplanationAction]).

    A Python [str] is modelled as a list of Unicode code points ([list N]);
    [len] is the list length.  Configuration values read through
    [get_config] are collected in a record.  The [try]/[except] of
    [_split_content_into_segments] is modelled by the helpers returning
    [option]: [None] is a raised exception, which the caller turns into
    [[content]]. *)

From Stdlib Require Import ZArith NArith Bool Lia Ascii String List QArith_base DecimalString.
Import ListNotations.

Close Scope Q_scope.
Open Scope list_scope.

Abbreviation char := N (only parsing).
Abbreviation pystr := (list N) (only parsing).

(** Code points of an ASCII string literal (used for concrete inputs). *)
Definition str (s : String.string) : pystr :=
  map Ascii.N_of_ascii (list_ascii_of_string s).

Definition nl : char := 10%N.

(** [str.isspace] / the class [\s] of a [str] pattern: the code points
    for which CPython's [Py_UNICODE_ISSPACE] holds. *)
Definition is_space (c : char) : bool :=
  ((9 <=? c) && (c <=? 13))%N || ((28 <=? c) && (c <=? 32))%N
  || (c =? 133)%N || (c =? 160)%N || (c =? 5760)%N
  || ((8192 <=? c) && (c <=? 8202))%N
  || (c =? 8232)%N || (c =? 8233)%N || (c =? 8239)%N || (c =? 8287)%N
  || (c =? 12288)%N.

(** [s.strip()] *)
Fixpoint lstrip (s : pystr) : pystr :=
  match s with
  | [] => []
  | c :: s' => if is_space c then lstrip s' else s
  end.

Definition strip (s : pystr) : pystr := rev (lstrip (rev (lstrip s))).

(** Truthiness of a [str]: non-empty. *)
Definition truthy (s : pystr) : bool :=
  match s with [] => false | _ => true end.

(** Python slicing [l[:k]] and [l[k:]] with a possibly negative [k]. *)
Definition py_index {A} (l : list A) (k : Z) : nat :=
  if (k <? 0)%Z then Z.to_nat (Z.max 0 (Z.of_nat (length l) + k))
  else Z.to_nat (Z.min k (Z.of_nat (length l))).

Definition py_take {A} (l : list A) (k : Z) : list A := firstn (py_index l k) l.
Definition py_drop {A} (l : list A) (k : Z) : list A := skipn (py_index l k) l.

(** [s[i:j]] for [0 <= i <= j]. *)
Definition py_slice (s : pystr) (i j : nat) : pystr := firstn (j - i) (skipn i s).

(** [range(0, n, step)] for [step > 0]. *)
Definition py_range0 (n step : nat) : list nat :=
  map (fun k => k * step) (seq 0 ((n + step - 1) / step)).

(** [x[0] += c] on the list of pieces that [re.split] is building. *)
Definition cons_head (c : char) (ps : list pystr) : list pystr :=
  match ps with
  | [] => [[c]]
  | p :: ps' => (c :: p) :: ps'
  end.

(** ** [re.split(r'\n\s*\n', content)]

    [para_tail s] matches [\s*\n] at the start of [s] with the
    backtracking of the regex engine ([\s*] greedy); it returns what
    follows the match. *)
Fixpoint para_tail (s : pystr) : option pystr :=
  match s with
  | [] => None
  | c :: s' =>
      if is_space c then
        match para_tail s' with
        | Some r => Some r
        | None => if (c =? nl)%N then Some s' else None
        end
      else None
  end.

(** The scan of [re.split]: at a ['\n'] try the pattern, on success start a
    new piece after the match, otherwise keep the character. *)
Fixpoint para_split_fuel (fuel : nat) (s : pystr) : list pystr :=
  match fuel with
  | O => [s]
  | S fuel' =>
      match s with
      | [] => [[]]
      | c :: s' =>
          if (c =? nl)%N then
            match para_tail s' with
            | Some r => [] :: para_split_fuel fuel' r
            | None => cons_head c (para_split_fuel fuel' s')
            end
          else cons_head c (para_split_fuel fuel' s')
      end
  end.

Definition split_paragraphs (s : pystr) : list pystr :=
  para_split_fuel (S (length s)) s.

(** ** [re.split('([' + ''.join(re.escape(sep) for sep in separators) + '])', text)]

    The character class holds every character of every separator; an empty
    class [([])] is a regex compile error. *)
Definition sep_chars (separators : list pystr) : list char := concat separators.

Definition is_sep (cls : list char) (c : char) : bool :=
  existsb (N.eqb c) cls.

Fixpoint sep_split (cls : list char) (s : pystr) : list pystr :=
  match s with
  | [] => [[]]
  | c :: s' =>
      if is_sep cls c then [] :: [c] :: sep_split cls s'
      else cons_head c (sep_split cls s')
  end.

(** The loop [for i in range(0, len(parts) - 1, 2)]. *)
Fixpoint sentence_pairs (parts : list pystr) : list pystr :=
  match parts with
  | p :: s :: rest =>
      let sentence := p ++ s in
      (if truthy (strip sentence) then [sentence] else []) ++ sentence_pairs rest
  | _ => []
  end.

(** [_split_by_sentences] *)
Definition split_by_sentences (text : pystr) (separators : list pystr)
    : option (list pystr) :=
  let cls := sep_chars separators in
  match cls with
  | [] => None
  | _ =>
      let parts := sep_split cls text in
      let sentences := sentence_pairs parts in
      Some (if Nat.odd (length parts) && truthy (strip (last parts []))
            then sentences ++ [last parts []]
            else sentences)
  end.

(** The greedy sentence accumulation, written twice in the source with the
    same body: the inner loop of [_smart_split] (state [segments],
    [temp_segment]) and the loop of [_sentence_split] (state [segments],
    [current_segment]). *)
Fixpoint accumulate_sentences (target_length : Z) (sentences : list pystr)
    (segments : list pystr) (temp : pystr) : list pystr * pystr :=
  match sentences with
  | [] => (segments, temp)
  | sentence :: rest =>
      if (Z.of_nat (length (temp ++ sentence)) <=? target_length)%Z
      then accumulate_sentences target_length rest segments (temp ++ sentence)
      else accumulate_sentences target_length rest
             (if truthy temp then segments ++ [temp] else segments) sentence
  end.

Definition para_joiner : pystr := [nl; nl].

(** The body of [for paragraph in paragraphs] in [_smart_split]; the
    state is [(segments, current_segment)]. *)
Definition smart_step (target_length : Z) (separators : list pystr)
    (st : list pystr * pystr) (paragraph : pystr)
    : option (list pystr * pystr) :=
  let (segments, current_segment) := st in
  let paragraph := strip paragraph in
  if negb (truthy paragraph) then Some (segments, current_segment)
  else if (Z.of_nat (length (current_segment ++ paragraph)) <=? target_length)%Z
  then Some (segments,
             if truthy current_segment
             then current_segment ++ para_joiner ++ paragraph
             else paragraph)
  else
    let segments :=
      if truthy current_segment then segments ++ [current_segment] else segments in
    if (target_length <? Z.of_nat (length paragraph))%Z then
      match split_by_sentences paragraph separators with
      | None => None
      | Some sentences =>
          Some (accumulate_sentences target_length sentences segments [])
      end
    else Some (segments, paragraph).

Fixpoint smart_loop (target_length : Z) (separators : list pystr)
    (paragraphs : list pystr) (st : list pystr * pystr)
    : option (list pystr * pystr) :=
  match paragraphs with
  | [] => Some st
  | p :: ps =>
      match smart_step target_length separators st p with
      | None => None
      | Some st' => smart_loop target_length separators ps st'
      end
  end.

(** [_smart_split] *)
Definition smart_split (content : pystr) (target_length : Z)
    (separators : list pystr) : option (list pystr) :=
  match split_paragraphs content with
  | [] => Some [content]
  | paragraphs =>
      match smart_loop target_length separators paragraphs ([], []) with
      | None => None
      | Some (segments, current_segment) =>
          Some (if truthy current_segment
                then segments ++ [current_segment] else segments)
      end
  end.

(** [_sentence_split] *)
Definition sentence_split (content : pystr) (target_length : Z)
    (separators : list pystr) : option (list pystr) :=
  match split_by_sentences content separators with
  | None => None
  | Some sentences =>
      let (segments, current_segment) :=
        accumulate_sentences target_length sentences [] [] in
      Some (if truthy current_segment
            then segments ++ [current_segment] else segments)
  end.

(** [_length_split]: [range] with step [0] raises [ValueError]; a negative
    step gives an empty range. *)
Definition length_split (content : pystr) (target_length : Z) : option (list pystr) :=
  if (target_length =? 0)%Z then None
  else if (target_length <? 0)%Z then Some []
  else
    let t := Z.to_nat target_length in
    Some (map (fun i => py_slice content i (i + t)) (py_range0 (length content) t)).

(** The configuration values read by [_split_content_into_segments] and
    [_split_by_sentences]. *)
Record SplitConfig := {
  segment_length : Z;
  min_segments : Z;
  max_segments : Z;
  algorithm : String.string;
  sentence_separators : list pystr
}.

(** The algorithmic split selected by [segmentation.algorithm]. *)
Definition raw_split (content : pystr) (cfg : SplitConfig) : option (list pystr) :=
  if String.eqb (algorithm cfg) "smart" then
    smart_split content (segment_length cfg) (sentence_separators cfg)
  else if String.eqb (algorithm cfg) "sentence" then
    sentence_split content (segment_length cfg) (sentence_separators cfg)
  else length_split content (segment_length cfg).

(** [_split_content_into_segments] *)
Definition split_content (content : pystr) (cfg : SplitConfig) : list pystr :=
  if (Z.of_nat (length content) <=? segment_length cfg)%Z then [content]
  else
    match raw_split content cfg with
    | None => [content]
    | Some segments =>
        if (Z.of_nat (length segments) <? min_segments cfg)%Z then [content]
        else if (max_segments cfg <? Z.of_nat (length segments))%Z then
          py_take segments (max_segments cfg - 1)
          ++ [concat (py_drop segments (max_segments cfg - 1))]
        else segments
    end.

Definition default_separators : list pystr :=
  [[12290%N]; [65281%N]; [65311%N]; str "."; str "!"; str "?"].

Definition repeat_str (s : String.string) (n : nat) : pystr := concat (repeat (str s) n).

Definition cfg_test (alg : String.string) (t mn mx : Z) : SplitConfig :=
  {| segment_length := t; min_segments := mn; max_segments := mx;
     algorithm := alg; sentence_separators := default_separators |}.

(** * Scenario inputs *)

Definition scenario_A : pystr := repeat_str "A" 10 ++ repeat_str "B" 10 ++ repeat_str "C" 10.
Definition cfg_A : SplitConfig := cfg_test "length" 10 1 2.

Definition scenario_C : pystr := repeat_str "A" 40.
Definition cfg_C : SplitConfig := cfg_test "length" 30 3 3.

(** Non-whitespace characters of a string, in order. *)
Definition non_ws (s : pystr) : pystr := filter (fun c => negb (is_space c)) s.

(** [s.strip()] is truthy. *)
Definition nonblank (s : pystr) : bool := truthy (strip s).

(** [xs] occurs in [ys] as a subsequence. *)
Fixpoint is_subseq (xs ys : pystr) : bool :=
  match xs, ys with
  | [], _ => true
  | _ :: _, [] => false
  | x :: xs', y :: ys' => if (x =? y)%N then is_subseq xs' ys' else is_subseq xs ys'
  end.

(** Shape of the result of [re.split] with one capturing group of a
    one-character class: pieces without separators, alternating with the
    captured separators. *)
Inductive alternating (cls : list char) : list pystr -> Prop :=
  | alt_last (p : pystr) :
      Forall (fun c => is_sep cls c = false) p -> alternating cls [p]
  | alt_pair (p : pystr) (c : char) (rest : list pystr) :
      Forall (fun c => is_sep cls c = false) p -> is_sep cls c = true ->
      alternating cls rest -> alternating cls (p :: [c] :: rest).

(** The last statement of [_split_by_sentences]. *)
Definition tail_part (parts : list pystr) : list pystr :=
  if Nat.odd (length parts) && nonblank (last parts []) then [last parts []] else [].

(** The accumulator is empty or non-blank. *)
Definition seg_ok (s : pystr) : Prop := truthy s = true -> nonblank s = true.

(** Two paragraphs whose lengths add up to [targetLength]. *)
Definition smart_fit_input : pystr := str "aaa" ++ [nl; nl] ++ str "bbbb".
Definition cfg_fit : SplitConfig := cfg_test "smart" 7 1 4.

(** * Delivery, generation and the action

    The asynchronous methods are modelled by the effects they perform, in
    order: each call of [send_text] and each [asyncio.sleep].  A float
    setting is kept as a rational number; it is only passed on. *)
Inductive event :=
  | SendText (text : pystr) (set_reply : bool)
  | Sleep (seconds : Q).

(** [str(n)] for an [int] [n >= 0]. *)
Definition py_str_nat (n : nat) : pystr := str (NilZero.string_of_uint (Nat.to_uint n)).

(** [f"({i+1}/{len(segments)}) {segment}"] *)
Definition with_progress (i n : nat) (segment : pystr) : pystr :=
  str "(" ++ py_str_nat (S i) ++ str "/" ++ py_str_nat n ++ str ") " ++ segment.

(** The text sent for segment [i] of [n]. *)
Definition segment_text (show_progress : bool) (n i : nat) (segment : pystr) : pystr :=
  if show_progress && (1 <? n) then with_progress i n segment else segment.

(** The loop of [_send_segments] from index [i]; [n] is [len(segments)].
    [raises i] says that the [send_text] call for segment [i] raises: the
    [except] around the loop then ends the delivery. *)
Fixpoint send_loop (raises : nat -> bool) (show_progress : bool) (send_delay : Q)
    (n i : nat) (rest : list pystr) : list event :=
  match rest with
  | [] => []
  | segment :: rest' =>
      SendText (segment_text show_progress n i segment) false
      :: (if raises i then []
          else (if i <? n - 1 then [Sleep send_delay] else [])
               ++ send_loop raises show_progress send_delay n (S i) rest')
  end.

(** [_send_segments] *)
Definition send_segments (raises : nat -> bool) (show_progress : bool) (send_delay : Q)
    (segments : list pystr) : list event :=
  send_loop raises show_progress send_delay (length segments) 0 segments.

Definition sent_texts (evs : list event) : list pystr :=
  flat_map (fun e => match e with SendText t _ => [t] | Sleep _ => [] end) evs.

Definition count_sleeps (evs : list event) : nat :=
  length (filter (fun e => match e with Sleep _ => true | SendText _ _ => false end) evs).

(** The [send_text] calls for segments (the start hint is sent with
    [set_reply=True]). *)
Definition segment_sends (evs : list event) : nat :=
  length (filter (fun e => match e with SendText _ r => negb r | Sleep _ => false end) evs).


(** The outcome of one [generator_api.generate_reply] call: it raises, or
    returns [(success, llm_response)]; [None] stands for a missing
    response or a missing [content]. *)
Inductive reply :=
  | Raised
  | Reply (success : bool) (content : option pystr).

(** [success and llm_response and llm_response.content] *)
Definition reply_text (r : reply) : option pystr :=
  match r with
  | Reply true (Some c) => if truthy c then Some c else None
  | _ => None
  end.

(** The text an expansion reply contributes ([""] when it is ignored). *)
Definition expansion_text (r : reply) : pystr :=
  match reply_text r with Some c => c | None => [] end.

(** The [while len(content) < min_length and retry < 2] loop; [None] is an
    exception raised by a call.  The fuel [2] is the bound on [retry]. *)
Fixpoint expand_loop (expansions : nat -> reply) (min_length : Z) (fuel retry : nat)
    (content : pystr) : option (pystr * nat) :=
  match fuel with
  | O => Some (content, retry)
  | S fuel' =>
      if (Z.of_nat (length content) <? min_length)%Z && (retry <? 2) then
        match expansions retry with
        | Raised => None
        | r =>
            let content :=
              match reply_text r with
              | Some c2 => strip (content ++ [nl; nl] ++ strip c2)
              | None => content
              end in
            expand_loop expansions min_length fuel' (S retry) content
        end
      else Some (content, retry)
  end.

(** [_generate_detailed_content]: the first reply, the replies of the
    expansion calls (the [k]-th call gets [expansions k]), and the two
    length settings; the result and the number of expansion calls. *)
Definition generate_content (first : reply) (expansions : nat -> reply)
    (min_length max_length : Z) : (bool * pystr) * nat :=
  match first with
  | Raised => ((false, []), 0)
  | _ =>
      match reply_text first with
      | None => ((false, []), 0)
      | Some c =>
          match expand_loop expansions min_length 2 0 (strip c) with
          | None => ((false, []), 0)
          | Some (content, calls) =>
              let content :=
                if (max_length <? Z.of_nat (length content))%Z
                then py_take content max_length ++ str "..."
                else content in
              ((true, content), calls)
          end
      end
  end.

(** The configuration values read by [execute] and its callees. *)
Record ActionConfig := {
  enable : bool;
  show_start_hint : bool;
  start_hint_message : pystr;
  min_total_length : Z;
  max_total_length : Z;
  show_progress : bool;
  send_delay : Q;
  split_cfg : SplitConfig
}.

(** The second component of the result of [execute]: the fixed messages,
    and [f"成功发送了{len(segments)}段详细解释"] by its count. *)
Inductive exec_message :=
  | MsgDisabled | MsgGenerationFailed | MsgSent (count : nat) | MsgError.

(** [execute]: [hint_raises] says that sending the start hint raises,
    [seg_raises] as in [send_segments]. *)
Definition execute (acfg : ActionConfig) (first : reply) (expansions : nat -> reply)
    (hint_raises : bool) (seg_raises : nat -> bool) : list event * (bool * exec_message) :=
  if negb (enable acfg) then ([], (false, MsgDisabled))
  else if show_start_hint acfg && hint_raises then
    ([SendText (start_hint_message acfg) true], (false, MsgError))
  else
    let hint := if show_start_hint acfg
                then [SendText (start_hint_message acfg) true; Sleep (1 # 2)] else [] in
    let '((success, detailed_content), _) :=
      generate_content first expansions (min_total_length acfg) (max_total_length acfg) in
    if negb success || negb (truthy detailed_content) then (hint, (false, MsgGenerationFailed))
    else
      let segments := split_content detailed_content (split_cfg acfg) in
      (hint ++ send_segments seg_raises (show_progress acfg) (send_delay acfg) segments,
       (true, MsgSent (length segments))).

Example test_smart_paragraphs :
  split_content (str "AAA" ++ [nl; nl] ++ str "BBB" ++ [nl; nl] ++ repeat_str "C" 20)
    (cfg_test "smart" 25 1 10)
  = [str "AAA" ++ [nl; nl] ++ str "BBB"; repeat_str "C" 20].
Proof. vm_compute. reflexivity. Qed.

Example test_length_fallback :
  split_content (repeat_str "A" 40) (cfg_test "length" 30 3 3) = [repeat_str "A" 40].
Proof. vm_compute. reflexivity. Qed.

Example test_sentences :
  split_by_sentences (str "Hi. Yes!  ") default_separators = Some [str "Hi."; str " Yes!"].
Proof. vm_compute. reflexivity. Qed.

Example test_para_ws :
  split_paragraphs ([65;nl;32;9;nl;32;66;nl;67]%N) = [[65%N]; [32;66;nl;67]%N].
Proof. vm_compute. reflexivity. Qed.

Example test_send_progress :
  send_segments (fun _ => false) true (3 # 2) [str "ab"; str "cd"]
  = [SendText (str "(1/2) ab") false; Sleep (3 # 2); SendText (str "(2/2) cd") false].
Proof. vm_compute. reflexivity. Qed.

Example test_send_abort :
  send_segments (fun i => Nat.eqb i 0) true (3 # 2) [str "ab"; str "cd"]
  = [SendText (str "(1/2) ab") false].
Proof. vm_compute. reflexivity. Qed.

Example test_generate_expand_truncate :
  generate_content (Reply true (Some (str " abc ")))
    (fun _ => Reply true (Some (str "defg"))) 6 8
  = ((true, str "abc" ++ [nl; nl] ++ str "def..."), 1).
Proof. vm_compute. reflexivity. Qed.

(** * Lemmas on Python slicing *)

Lemma py_index_nonneg {A} (l : list A) (k : Z) :
  (0 <= k)%Z -> (k <= Z.of_nat (length l))%Z -> py_index l k = Z.to_nat k.
Proof.
  intros H0 H1. unfold py_index.
  destruct (Z.ltb_spec k 0); [lia|]. f_equal. lia.
Qed.

Lemma py_take_drop {A} (l : list A) (k : Z) : py_take l k ++ py_drop l k = l.
Proof. apply firstn_skipn. Qed.

Lemma py_take_length {A} (l : list A) (k : Z) :
  (0 <= k)%Z -> (k <= Z.of_nat (length l))%Z -> length (py_take l k) = Z.to_nat k.
Proof.
  intros H0 H1. unfold py_take. rewrite (py_index_nonneg l k H0 H1).
  rewrite length_firstn. lia.
Qed.

(** * Claims *)

(** C1: if [len(content) <= targetLength], [split] returns exactly
    [[content]], whatever the algorithm. *)
Theorem split_short_circuit (content : pystr) (cfg : SplitConfig) :
  (Z.of_nat (length content) <= segment_length cfg)%Z ->
  split_content content cfg = [content].
Proof.
  intros H. unfold split_content.
  destruct (Z.leb_spec (Z.of_nat (length content)) (segment_length cfg)); [reflexivity | lia].
Qed.

Lemma split_short_circuit_witness :
  (Z.of_nat (length (str "abc")) <= segment_length (cfg_test "smart" 5 1 4))%Z
  /\ split_content (str "abc") (cfg_test "smart" 5 1 4) = [str "abc"].
Proof.
  split; [vm_compute; discriminate |].
  apply split_short_circuit. vm_compute. discriminate.
Defined.

(** C2: with [1 <= minSegments <= maxSegments], [split] returns at most
    [maxSegments] segments. *)
Theorem split_max_segments (content : pystr) (cfg : SplitConfig) :
  (1 <= min_segments cfg)%Z -> (min_segments cfg <= max_segments cfg)%Z ->
  (Z.of_nat (length (split_content content cfg)) <= max_segments cfg)%Z.
Proof.
  intros Hmin Hle. unfold split_content.
  destruct (Z.leb_spec (Z.of_nat (length content)) (segment_length cfg));
    [simpl; lia |].
  destruct (raw_split content cfg) as [segs|]; [| simpl; lia].
  destruct (Z.ltb_spec (Z.of_nat (length segs)) (min_segments cfg)); [simpl; lia |].
  destruct (Z.ltb_spec (max_segments cfg) (Z.of_nat (length segs))); [| lia].
  rewrite length_app, py_take_length by lia. simpl. lia.
Qed.

Lemma split_max_segments_witness :
  (1 <= min_segments cfg_A)%Z /\ (min_segments cfg_A <= max_segments cfg_A)%Z
  /\ (Z.of_nat (length (split_content scenario_A cfg_A)) <= max_segments cfg_A)%Z.
Proof.
  split; [vm_compute; discriminate | split; [vm_compute; discriminate |]].
  apply split_max_segments; vm_compute; discriminate.
Defined.

(** C3: when the raw split has more than [maxSegments] segments, [split]
    keeps the first [maxSegments - 1] and appends the plain concatenation
    of the others: exactly [maxSegments] segments. *)
Theorem split_tail_merge (content : pystr) (cfg : SplitConfig) (segs : list pystr) :
  (1 <= min_segments cfg)%Z -> (min_segments cfg <= max_segments cfg)%Z ->
  (segment_length cfg < Z.of_nat (length content))%Z ->
  raw_split content cfg = Some segs ->
  (max_segments cfg < Z.of_nat (length segs))%Z ->
  split_content content cfg
  = firstn (Z.to_nat (max_segments cfg - 1)) segs
    ++ [concat (skipn (Z.to_nat (max_segments cfg - 1)) segs)]
  /\ length (split_content content cfg) = Z.to_nat (max_segments cfg).
Proof.
  intros Hmin Hle Hlong Hraw Hmany.
  assert (E : split_content content cfg
              = firstn (Z.to_nat (max_segments cfg - 1)) segs
                ++ [concat (skipn (Z.to_nat (max_segments cfg - 1)) segs)]).
  { unfold split_content.
    destruct (Z.leb_spec (Z.of_nat (length content)) (segment_length cfg)); [lia |].
    rewrite Hraw.
    destruct (Z.ltb_spec (Z.of_nat (length segs)) (min_segments cfg)); [lia |].
    destruct (Z.ltb_spec (max_segments cfg) (Z.of_nat (length segs))); [| lia].
    unfold py_take, py_drop. rewrite py_index_nonneg by lia. reflexivity. }
  split; [exact E |].
  rewrite E, length_app, length_firstn. simpl. lia.
Qed.

Lemma split_tail_merge_witness :
  raw_split scenario_A cfg_A
    = Some [repeat_str "A" 10; repeat_str "B" 10; repeat_str "C" 10]
  /\ split_content scenario_A cfg_A
     = [repeat_str "A" 10; repeat_str "B" 10 ++ repeat_str "C" 10].
Proof.
  assert (Hraw : raw_split scenario_A cfg_A
                 = Some [repeat_str "A" 10; repeat_str "B" 10; repeat_str "C" 10])
    by (vm_compute; reflexivity).
  split; [exact Hraw |].
  destruct (split_tail_merge scenario_A cfg_A _ ltac:(vm_compute; discriminate)
              ltac:(vm_compute; discriminate) ltac:(vm_compute; reflexivity)
              Hraw ltac:(vm_compute; reflexivity)) as [E _].
  rewrite E. vm_compute. reflexivity.
Defined.

(** C4 (code_bug): Scenario A.  The tail merge uses [''.join], so the
    merged segment is [B*10 + C*10], without the two-newline separator the
    repository's test [test_segment_merge_preserves_newlines] expects. *)
Theorem scenario_A_merge_has_no_separator :
  split_content scenario_A cfg_A = [repeat_str "A" 10; repeat_str "B" 10 ++ repeat_str "C" 10]
  /\ split_content scenario_A cfg_A
     <> [repeat_str "A" 10; repeat_str "B" 10 ++ [nl; nl] ++ repeat_str "C" 10].
Proof.
  split; [vm_compute; reflexivity |].
  vm_compute. discriminate.
Qed.

(** C5: when the raw split has fewer than [minSegments] segments, [split]
    returns [[content]]. *)
Theorem split_min_fallback (content : pystr) (cfg : SplitConfig) (segs : list pystr) :
  (segment_length cfg < Z.of_nat (length content))%Z ->
  raw_split content cfg = Some segs ->
  (Z.of_nat (length segs) < min_segments cfg)%Z ->
  split_content content cfg = [content].
Proof.
  intros Hlong Hraw Hfew. unfold split_content.
  destruct (Z.leb_spec (Z.of_nat (length content)) (segment_length cfg)); [lia |].
  rewrite Hraw.
  destruct (Z.ltb_spec (Z.of_nat (length segs)) (min_segments cfg)); [reflexivity | lia].
Qed.

Lemma split_min_fallback_witness :
  raw_split scenario_C cfg_C = Some [repeat_str "A" 30; repeat_str "A" 10]
  /\ split_content scenario_C cfg_C = [scenario_C].
Proof.
  assert (Hraw : raw_split scenario_C cfg_C = Some [repeat_str "A" 30; repeat_str "A" 10])
    by (vm_compute; reflexivity).
  split; [exact Hraw |].
  apply (split_min_fallback scenario_C cfg_C _ ltac:(vm_compute; reflexivity) Hraw).
  vm_compute. reflexivity.
Defined.

(** * [_length_split] *)

Lemma firstn_add {A} (a b : nat) (l : list A) :
  firstn (a + b) l = firstn a l ++ firstn b (skipn a l).
Proof.
  revert l. induction a as [|a IH]; intros l; [reflexivity |].
  destruct l as [|x l]; simpl.
  - rewrite firstn_nil. reflexivity.
  - f_equal. apply IH.
Qed.

Lemma firstn_seq_le (j s m : nat) : j <= m -> firstn j (seq s m) = seq s j.
Proof.
  revert s m. induction j as [|j IH]; intros s m Hj; [reflexivity |].
  destruct m as [|m]; [lia |]. simpl. f_equal. apply IH. lia.
Qed.

Section LengthSplit.
Variable content : pystr.
Variable t : nat.
Hypothesis t_pos : 0 < t.

Let slice_at (k : nat) : pystr := py_slice content (k * t) (k * t + t).

Lemma length_slices_eq (n : nat) :
  map (fun i => py_slice content i (i + t)) (py_range0 n t)
  = map slice_at (seq 0 ((n + t - 1) / t)).
Proof. unfold py_range0. rewrite map_map. reflexivity. Qed.

Lemma concat_slices (m : nat) :
  concat (map slice_at (seq 0 m)) = firstn (m * t) content.
Proof.
  induction m as [|m IH]; [reflexivity |].
  replace (S m * t) with (m * t + t) by lia.
  rewrite seq_S, map_app, concat_app, IH. cbn [map concat]. rewrite app_nil_r.
  unfold slice_at, py_slice. replace (0 + m) with m by lia.
  replace (m * t + t - m * t) with t by lia.
  symmetry. apply firstn_add.
Qed.

Lemma slice_full (k : nat) :
  k * t + t <= length content -> length (slice_at k) = t.
Proof.
  intros H. unfold slice_at, py_slice. rewrite length_firstn, length_skipn. lia.
Qed.

(** The number of slices [m] covers the content and all but the last
    slice are full. *)
Lemma slice_count_bounds (n : nat) :
  0 < n ->
  n <= (n + t - 1) / t * t /\ ((n + t - 1) / t - 1) * t < n
  /\ 1 <= (n + t - 1) / t.
Proof.
  intros Hn.
  pose proof (Nat.div_mod_eq (n + t - 1) t) as E.
  pose proof (Nat.mod_upper_bound (n + t - 1) t ltac:(lia)) as M.
  set (m := (n + t - 1) / t) in *. set (r := (n + t - 1) mod t) in *.
  assert (1 <= m) by nia.
  split; [nia | split; [| lia]].
  destruct m as [|m']; [lia |]. replace (S m' - 1) with m' by lia. nia.
Qed.

Lemma full_prefix (m j : nat) :
  (m - 1) * t <= length content -> j <= m - 1 ->
  Forall (fun s => length s = t) (map slice_at (seq 0 j)).
Proof.
  intros Hm Hj. apply Forall_forall. intros x Hx.
  apply in_map_iff in Hx as [k [<- Hk]]. apply in_seq in Hk.
  apply slice_full. nia.
Qed.
End LengthSplit.

(** * Normalisation pass *)

Lemma concat_tail_merge (segs : list pystr) (k : Z) :
  concat (py_take segs k ++ [concat (py_drop segs k)]) = concat segs.
Proof.
  rewrite concat_app. simpl. rewrite app_nil_r, <- concat_app, py_take_drop.
  reflexivity.
Qed.

(** The three outcomes of [_split_content_into_segments] once past the
    short-circuit: [[content]] (exception or too few segments), the raw
    segments, or their tail merge. *)
Lemma split_content_cases (content : pystr) (cfg : SplitConfig) :
  split_content content cfg = [content]
  \/ exists segs, raw_split content cfg = Some segs
       /\ (min_segments cfg <= Z.of_nat (length segs))%Z
       /\ (   (split_content content cfg = segs
               /\ Z.of_nat (length segs) <= max_segments cfg)%Z
           \/ (split_content content cfg
               = py_take segs (max_segments cfg - 1)
                 ++ [concat (py_drop segs (max_segments cfg - 1))]
               /\ max_segments cfg < Z.of_nat (length segs))%Z).
Proof.
  unfold split_content.
  destruct (Z.leb_spec (Z.of_nat (length content)) (segment_length cfg)); [left; reflexivity |].
  destruct (raw_split content cfg) as [segs|] eqn:Hraw; [| left; reflexivity].
  destruct (Z.ltb_spec (Z.of_nat (length segs)) (min_segments cfg)); [left; reflexivity |].
  right. exists segs. split; [reflexivity | split; [lia |]].
  destruct (Z.ltb_spec (max_segments cfg) (Z.of_nat (length segs))).
  - right. split; [reflexivity | lia].
  - left. split; [reflexivity | lia].
Qed.

(** C6: with the [length] algorithm and a valid configuration, the
    segments concatenate back to [content] and all but the last have
    length exactly [targetLength]. *)
Theorem length_algorithm_exact (content : pystr) (cfg : SplitConfig) :
  algorithm cfg = "length"%string ->
  (1 <= min_segments cfg)%Z -> (min_segments cfg <= max_segments cfg)%Z ->
  (1 <= segment_length cfg)%Z ->
  concat (split_content content cfg) = content
  /\ Forall (fun s => Z.of_nat (length s) = segment_length cfg)
       (removelast (split_content content cfg)).
Proof.
  intros Halg Hmin Hle HT.
  unfold split_content.
  destruct (Z.leb_spec (Z.of_nat (length content)) (segment_length cfg)) as [Hshort | Hlong].
  { simpl. rewrite app_nil_r. split; [reflexivity | constructor]. }
  assert (Hraw : raw_split content cfg = length_split content (segment_length cfg)).
  { unfold raw_split. rewrite Halg. reflexivity. }
  rewrite Hraw. unfold length_split.
  destruct (Z.eqb_spec (segment_length cfg) 0) as [H0 | H0]; [lia |].
  destruct (Z.ltb_spec (segment_length cfg) 0) as [H1 | H1]; [lia |].
  set (t := Z.to_nat (segment_length cfg)).
  assert (Ht : 0 < t) by lia.
  rewrite (length_slices_eq content t).
  set (n := length content) in *.
  set (m := (n + t - 1) / t).
  destruct (slice_count_bounds t Ht n ltac:(lia)) as [Hcover [Hfull Hm1]].
  fold m in Hcover, Hfull, Hm1.
  set (f := fun k => py_slice content (k * t) (k * t + t)).
  assert (Hcat : concat (map f (seq 0 m)) = content).
  { unfold f. erewrite concat_slices by exact Ht. apply firstn_all2. lia. }
  assert (HZ : forall s : pystr, length s = t -> Z.of_nat (length s) = segment_length cfg).
  { intros s Hs. rewrite Hs. unfold t. lia. }
  rewrite length_map, length_seq.
  destruct (Z.ltb_spec (Z.of_nat m) (min_segments cfg)).
  { simpl. rewrite app_nil_r. split; [reflexivity | constructor]. }
  destruct (Z.ltb_spec (max_segments cfg) (Z.of_nat m)).
  - split; [rewrite concat_tail_merge; exact Hcat |].
    rewrite removelast_last. unfold py_take.
    rewrite py_index_nonneg by (try rewrite length_map, length_seq; lia).
    rewrite firstn_map, firstn_seq_le by lia.
    eapply Forall_impl; [exact HZ |].
    apply (full_prefix content t Ht m); lia.
  - split; [exact Hcat |].
    destruct m as [|m']; [lia |].
    rewrite seq_S, map_app. cbn [map]. rewrite removelast_last.
    eapply Forall_impl; [exact HZ |].
    apply (full_prefix content t Ht (S m')); lia.
Qed.

Lemma length_algorithm_exact_witness :
  concat (split_content scenario_A cfg_A) = scenario_A
  /\ Forall (fun s => Z.of_nat (length s) = segment_length cfg_A)
       (removelast (split_content scenario_A cfg_A)).
Proof.
  apply length_algorithm_exact; vm_compute; first [reflexivity | discriminate].
Defined.

(** C9 (code_bug): [_smart_split] merges a paragraph when
    [len(current_segment + paragraph) <= target_length], which leaves out
    the two characters of the ["\n\n"] it inserts: two paragraphs of
    lengths 3 and 4 with [targetLength = 7] give a 9-character segment. *)
Theorem smart_merge_exceeds_target :
  raw_split smart_fit_input cfg_fit = Some [smart_fit_input]
  /\ split_content smart_fit_input cfg_fit = [smart_fit_input]
  /\ length smart_fit_input = 9
  /\ (segment_length cfg_fit < Z.of_nat (length smart_fit_input))%Z.
Proof. vm_compute. repeat split; reflexivity. Qed.

(** C10, counterexample: with separator ["."], ["a.."] is tokenised as
    ["a."] and a standalone ["."]. *)
Lemma sentence_standalone_separator :
  split_by_sentences (str "a..") [str "."] = Some [str "a."; str "."]
  /\ In (str ".") [str "a."; str "."].
Proof. split; [vm_compute; reflexivity | right; left; reflexivity]. Qed.

(** C8, counterexample: the [length] algorithm cuts ["aa  "] with
    [targetLength = 2] into ["aa"] and the blank ["  "]. *)
Lemma length_split_blank_segment :
  split_content (str "aa  ") (cfg_test "length" 2 1 4) = [str "aa"; str "  "]
  /\ strip (str "  ") = [].
Proof. split; vm_compute; reflexivity. Qed.

(** C7, counterexample: [smart] trims the paragraph [" abcd"], so the
    leading space of the content is not in the result. *)
Lemma smart_drops_leading_space :
  split_content (str " abcd") (cfg_test "smart" 3 1 4) = [str "abcd"]
  /\ is_subseq (str " abcd") (concat (split_content (str " abcd") (cfg_test "smart" 3 1 4)))
     = false.
Proof. split; vm_compute; reflexivity. Qed.

(** * Whitespace, [strip] and truthiness *)

Lemma non_ws_app (a b : pystr) : non_ws (a ++ b) = non_ws a ++ non_ws b.
Proof. apply filter_app. Qed.

Lemma non_ws_rev (s : pystr) : non_ws (rev s) = rev (non_ws s).
Proof.
  induction s as [|c s IH]; [reflexivity |].
  simpl. rewrite non_ws_app, IH. simpl.
  destruct (is_space c); simpl; [rewrite app_nil_r |]; reflexivity.
Qed.

Lemma non_ws_lstrip (s : pystr) : non_ws (lstrip s) = non_ws s.
Proof.
  induction s as [|c s IH]; [reflexivity |].
  cbn [lstrip]. destruct (is_space c) eqn:E; [| reflexivity].
  rewrite IH. unfold non_ws. simpl. rewrite E. reflexivity.
Qed.

Lemma non_ws_strip (s : pystr) : non_ws (strip s) = non_ws s.
Proof.
  unfold strip. rewrite non_ws_rev, non_ws_lstrip, non_ws_rev, non_ws_lstrip.
  apply rev_involutive.
Qed.

Lemma truthy_rev (s : pystr) : truthy (rev s) = truthy s.
Proof.
  destruct s as [|c s]; [reflexivity |]. simpl.
  destruct (rev s); reflexivity.
Qed.

Lemma truthy_lstrip (s : pystr) : truthy (lstrip s) = truthy (non_ws s).
Proof.
  induction s as [|c s IH]; [reflexivity |].
  simpl. destruct (is_space c); [exact IH | reflexivity].
Qed.

(** [s.strip()] is truthy exactly when [s] has a non-whitespace character. *)
Lemma nonblank_non_ws (s : pystr) : nonblank s = truthy (non_ws s).
Proof.
  unfold nonblank, strip. rewrite truthy_rev, truthy_lstrip, non_ws_rev,
    truthy_rev, non_ws_lstrip. reflexivity.
Qed.

Lemma truthy_app (a b : pystr) : truthy (a ++ b) = truthy a || truthy b.
Proof. destruct a; reflexivity. Qed.

Lemma nonblank_app_r (a b : pystr) : nonblank b = true -> nonblank (a ++ b) = true.
Proof.
  rewrite !nonblank_non_ws, non_ws_app, truthy_app. intros ->. apply orb_true_r.
Qed.

Lemma nonblank_app_l (a b : pystr) : nonblank a = true -> nonblank (a ++ b) = true.
Proof.
  rewrite !nonblank_non_ws, non_ws_app, truthy_app. intros ->. reflexivity.
Qed.

Lemma nonblank_truthy (s : pystr) : nonblank s = true -> truthy s = true.
Proof. destruct s; [discriminate | reflexivity]. Qed.

Lemma not_nonblank_non_ws (s : pystr) : nonblank s = false -> non_ws s = [].
Proof. rewrite nonblank_non_ws. destruct (non_ws s); [reflexivity | discriminate]. Qed.

(** A truthy stripped string is non-blank. *)
Lemma strip_nonblank (s : pystr) : truthy (strip s) = true -> nonblank (strip s) = true.
Proof.
  intros H. rewrite nonblank_non_ws, non_ws_strip, <- nonblank_non_ws. exact H.
Qed.

Lemma nonblank_concat (l : list pystr) :
  l <> [] -> Forall (fun s => nonblank s = true) l -> nonblank (concat l) = true.
Proof.
  intros Hne HF. destruct l as [|s l]; [contradiction |].
  inversion HF; subst. simpl. apply nonblank_app_l. assumption.
Qed.

Lemma concat_cons_head (c : char) (ps : list pystr) :
  concat (cons_head c ps) = c :: concat ps.
Proof. destruct ps; simpl; [reflexivity | reflexivity]. Qed.

(** * Paragraph split: only whitespace is consumed *)

Lemma para_tail_ws (s r : pystr) :
  para_tail s = Some r -> exists w, s = w ++ r /\ non_ws w = [].
Proof.
  revert r. induction s as [|c s IH]; intros r H; [discriminate |].
  simpl in H. destruct (is_space c) eqn:Ec; [| discriminate].
  destruct (para_tail s) as [r'|] eqn:E.
  - injection H as <-. destruct (IH r' eq_refl) as [w [-> Hw]].
    exists (c :: w). split; [reflexivity |]. simpl. rewrite Ec. exact Hw.
  - destruct (c =? nl)%N; [| discriminate]. injection H as <-.
    exists [c]. split; [reflexivity |]. simpl. rewrite Ec. reflexivity.
Qed.

Lemma para_split_non_ws (fuel : nat) (s : pystr) :
  non_ws (concat (para_split_fuel fuel s)) = non_ws s.
Proof.
  revert s. induction fuel as [|fuel IH]; intros s.
  { simpl. rewrite app_nil_r. reflexivity. }
  destruct s as [|c s']; [reflexivity |]. simpl.
  destruct (c =? nl)%N eqn:Ec.
  - apply N.eqb_eq in Ec. subst c.
    destruct (para_tail s') as [r|] eqn:Et.
    + simpl. rewrite IH. destruct (para_tail_ws s' r Et) as [w [-> Hw]].
      rewrite non_ws_app, Hw. reflexivity.
    + rewrite concat_cons_head. simpl. rewrite IH. reflexivity.
  - rewrite concat_cons_head. simpl. rewrite IH. reflexivity.
Qed.

Lemma split_paragraphs_non_ws (s : pystr) :
  non_ws (concat (split_paragraphs s)) = non_ws s.
Proof. apply para_split_non_ws. Qed.

(** * Sentence tokenisation *)

Section Sentences.
Variable cls : list char.

Let sep_free (p : pystr) := Forall (fun c => is_sep cls c = false) p.

Lemma concat_sep_split (s : pystr) : concat (sep_split cls s) = s.
Proof.
  induction s as [|c s IH]; [reflexivity |]. simpl.
  destruct (is_sep cls c); [simpl; rewrite IH; reflexivity |].
  rewrite concat_cons_head, IH. reflexivity.
Qed.

Lemma sep_split_alternating (s : pystr) : alternating cls (sep_split cls s).
Proof.
  induction s as [|c s IH]; [constructor; constructor |]. simpl.
  destruct (is_sep cls c) eqn:Ec.
  - constructor; [constructor | exact Ec | exact IH].
  - inversion IH as [p Hp E | p c' rest Hp Hc Hrest E]; simpl.
    + constructor. constructor; assumption.
    + constructor; [constructor; assumption | assumption | assumption].
Qed.

Lemma alternating_nonempty (parts : list pystr) : alternating cls parts -> parts <> [].
Proof. intros H; inversion H; discriminate. Qed.

Lemma tail_part_pair (p : pystr) (c : char) (rest : list pystr) :
  rest <> [] -> tail_part (p :: [c] :: rest) = tail_part rest.
Proof.
  intros Hne. unfold tail_part.
  destruct rest as [|x rest]; [contradiction |]. reflexivity.
Qed.

Let tokens (parts : list pystr) := sentence_pairs parts ++ tail_part parts.

Lemma tokens_pair (p : pystr) (c : char) (rest : list pystr) :
  alternating cls rest ->
  tokens (p :: [c] :: rest)
  = (if nonblank (p ++ [c]) then [p ++ [c]] else []) ++ tokens rest.
Proof.
  intros H. unfold tokens. rewrite tail_part_pair by (apply alternating_nonempty; exact H).
  cbn [sentence_pairs]. rewrite <- app_assoc. reflexivity.
Qed.

Lemma tokens_last (p : pystr) :
  tokens [p] = if nonblank p then [p] else [].
Proof. unfold tokens, tail_part. simpl. destruct (nonblank p); reflexivity. Qed.

Lemma tokens_non_ws (parts : list pystr) :
  alternating cls parts -> non_ws (concat (tokens parts)) = non_ws (concat parts).
Proof.
  induction 1 as [p Hp | p c rest Hp Hc Hrest IH].
  - rewrite tokens_last. simpl. rewrite app_nil_r.
    destruct (nonblank p) eqn:E; simpl; [rewrite app_nil_r; reflexivity |].
    symmetry. apply not_nonblank_non_ws. exact E.
  - rewrite tokens_pair by exact Hrest. rewrite concat_app, non_ws_app, IH.
    replace (concat (p :: [c] :: rest)) with ((p ++ [c]) ++ concat rest)
      by (simpl; rewrite <- app_assoc; reflexivity).
    rewrite (non_ws_app (p ++ [c])). f_equal.
    destruct (nonblank (p ++ [c])) eqn:E; simpl; [rewrite app_nil_r; reflexivity |].
    rewrite (not_nonblank_non_ws _ E). reflexivity.
Qed.

Lemma tokens_nonblank (parts : list pystr) :
  alternating cls parts -> Forall (fun s => nonblank s = true) (tokens parts).
Proof.
  induction 1 as [p Hp | p c rest Hp Hc Hrest IH].
  - rewrite tokens_last. destruct (nonblank p) eqn:E; constructor; auto.
  - rewrite tokens_pair by exact Hrest. apply Forall_app. split; [| exact IH].
    destruct (nonblank (p ++ [c])) eqn:E; constructor; auto.
Qed.

Lemma Forall_removelast {A} (P : A -> Prop) (l : list A) :
  Forall P l -> Forall P (removelast l).
Proof.
  intros H. destruct l as [|x l] using rev_ind; [constructor |].
  rewrite removelast_last. apply Forall_app in H. apply H.
Qed.

(** Every token has no separator but possibly its last character. *)
Lemma tokens_one_separator (parts : list pystr) :
  alternating cls parts -> Forall (fun s => sep_free (removelast s)) (tokens parts).
Proof.
  induction 1 as [p Hp | p c rest Hp Hc Hrest IH].
  - rewrite tokens_last. destruct (nonblank p); constructor; [| constructor].
    apply Forall_removelast. exact Hp.
  - rewrite tokens_pair by exact Hrest. apply Forall_app. split; [| exact IH].
    destruct (nonblank (p ++ [c])); constructor; [| constructor].
    rewrite removelast_last. exact Hp.
Qed.

(** Every token but the last ends with a separator. *)
Lemma tokens_end_with_separator (parts : list pystr) :
  alternating cls parts ->
  Forall (fun s => is_sep cls (last s 0%N) = true) (removelast (tokens parts)).
Proof.
  induction 1 as [p Hp | p c rest Hp Hc Hrest IH].
  - rewrite tokens_last. destruct (nonblank p); constructor.
  - rewrite tokens_pair by exact Hrest.
    destruct (tokens rest) as [|t ts] eqn:Et.
    + rewrite app_nil_r. destruct (nonblank (p ++ [c])); constructor.
    + rewrite removelast_app by discriminate. apply Forall_app. split; [| exact IH].
      destruct (nonblank (p ++ [c])); constructor; [| constructor].
      rewrite last_last. exact Hc.
Qed.
End Sentences.

Lemma last_app_ne {A} (l l' : list A) (d : A) : l' <> [] -> last (l ++ l') d = last l' d.
Proof.
  intros Hne. induction l as [|x l IH]; [reflexivity |].
  rewrite <- app_comm_cons. rewrite <- IH.
  destruct (l ++ l') eqn:E; [apply app_eq_nil in E as [_ ->]; contradiction | reflexivity].
Qed.

Lemma in_last {A} (l : list A) (d : A) : l <> [] -> In (last l d) l.
Proof.
  intros Hne. induction l as [|x l IH]; [contradiction |].
  destruct l as [|y l]; [left; reflexivity |].
  right. apply IH. discriminate.
Qed.

Lemma last_cons_ne {A} (x : A) (l : list A) (d : A) : l <> [] -> last (x :: l) d = last l d.
Proof. destruct l; [contradiction | reflexivity]. Qed.

Lemma split_by_sentences_tokens (text : pystr) (seps : list pystr) :
  sep_chars seps <> [] ->
  split_by_sentences text seps
  = Some (sentence_pairs (sep_split (sep_chars seps) text)
          ++ tail_part (sep_split (sep_chars seps) text)).
Proof.
  intros Hne. unfold split_by_sentences, tail_part, nonblank.
  destruct (sep_chars seps) as [|x xs]; [contradiction |].
  destruct (Nat.odd _ && truthy _); [reflexivity | rewrite app_nil_r; reflexivity].
Qed.

Section Trailing.
Variable cls : list char.

Lemma sep_split_sep_free (f : pystr) :
  Forall (fun c => is_sep cls c = false) f -> sep_split cls f = [f].
Proof.
  induction 1 as [|c f Hc Hf IH]; [reflexivity |]. simpl. rewrite Hc, IH. reflexivity.
Qed.

Lemma length_cons_head (c : char) (ps : list pystr) :
  ps <> [] -> length (cons_head c ps) = length ps.
Proof. destruct ps; [contradiction | reflexivity]. Qed.

Lemma sep_split_nonempty (s : pystr) : sep_split cls s <> [].
Proof.
  destruct s as [|c s]; simpl; [discriminate |].
  destruct (is_sep cls c); [discriminate | destruct (sep_split cls s); discriminate].
Qed.

Lemma sep_split_long (s : pystr) (c : char) :
  In c s -> is_sep cls c = true -> 2 <= length (sep_split cls s).
Proof.
  induction s as [|x s IH]; intros Hin Hc; [destruct Hin |]. simpl.
  destruct (is_sep cls x) eqn:Ex; [simpl; lia |].
  destruct Hin as [-> | Hin]; [congruence |].
  rewrite length_cons_head by apply sep_split_nonempty. apply IH; assumption.
Qed.

Lemma last_cons_head (c : char) (ps : list pystr) (d : pystr) :
  2 <= length ps -> last (cons_head c ps) d = last ps d.
Proof. destruct ps as [|p [|q ps]]; simpl; intros H; [lia | lia | reflexivity]. Qed.

(** The separator-free fragment after the last separator is the last
    piece of [re.split]. *)
Lemma last_sep_split_app (u f : pystr) :
  (u = [] \/ is_sep cls (last u 0%N) = true) ->
  Forall (fun c => is_sep cls c = false) f ->
  last (sep_split cls (u ++ f)) [] = f.
Proof.
  intros Hu Hf. induction u as [|c u IH].
  { simpl. rewrite sep_split_sep_free by exact Hf. reflexivity. }
  destruct Hu as [Hu | Hu]; [discriminate |].
  destruct (list_eq_dec N.eq_dec u []) as [-> | Hne].
  - simpl in *. rewrite Hu, sep_split_sep_free by exact Hf. reflexivity.
  - rewrite last_cons_ne in Hu by exact Hne.
    specialize (IH (or_intror Hu)).
    rewrite <- app_comm_cons. simpl.
    destruct (is_sep cls c).
    + rewrite last_cons_ne by discriminate. rewrite last_cons_ne by apply sep_split_nonempty.
      exact IH.
    + rewrite last_cons_head; [exact IH |].
      apply (sep_split_long _ (last u 0%N)); [| exact Hu].
      apply in_or_app. left. apply in_last. exact Hne.
Qed.

Lemma tokens_last_piece (parts : list pystr) :
  alternating cls parts -> nonblank (last parts []) = true ->
  last (sentence_pairs parts ++ tail_part parts) [] = last parts [].
Proof.
  induction 1 as [p Hp | p c rest Hp Hc Hrest IH]; intros Hnb.
  - unfold tail_part. simpl in *. rewrite Hnb. reflexivity.
  - assert (Hne : rest <> []) by (apply alternating_nonempty in Hrest; exact Hrest).
    rewrite last_cons_ne in Hnb |- * by discriminate.
    rewrite last_cons_ne in Hnb |- * by exact Hne.
    specialize (IH Hnb).
    assert (Hne2 : sentence_pairs rest ++ tail_part rest <> []).
    { intros E. rewrite E in IH. simpl in IH. rewrite <- IH in Hnb. discriminate. }
    rewrite tail_part_pair by exact Hne. cbn [sentence_pairs].
    rewrite <- app_assoc, last_app_ne by exact Hne2. exact IH.
Qed.
End Trailing.

(** C10 (amended): with a non-empty separator class, the tokens are
    non-blank; with whitespace removed they concatenate to the text with
    whitespace removed; each contains a separator at most as its last
    character; all but the last end with a separator; and a non-blank
    trailing fragment without separator is the last token.  (A separator
    right after another one, or at the start, is a token of its own, and a
    blank trailing fragment is dropped.) *)
Theorem sentence_tokenization (text : pystr) (seps : list pystr) :
  sep_chars seps <> [] ->
  exists sents,
    split_by_sentences text seps = Some sents
    /\ Forall (fun s => nonblank s = true) sents
    /\ non_ws (concat sents) = non_ws text
    /\ Forall (fun s => Forall (fun c => is_sep (sep_chars seps) c = false) (removelast s))
         sents
    /\ Forall (fun s => is_sep (sep_chars seps) (last s 0%N) = true) (removelast sents)
    /\ (forall u f, text = u ++ f ->
          (u = [] \/ is_sep (sep_chars seps) (last u 0%N) = true) ->
          Forall (fun c => is_sep (sep_chars seps) c = false) f ->
          nonblank f = true -> last sents [] = f).
Proof.
  intros Hne.
  set (cls := sep_chars seps) in *.
  pose proof (sep_split_alternating cls text) as Halt.
  eexists. split; [rewrite split_by_sentences_tokens by exact Hne; reflexivity |].
  split; [apply (tokens_nonblank cls); exact Halt |].
  split; [rewrite (tokens_non_ws cls) by exact Halt; rewrite concat_sep_split; reflexivity |].
  split; [apply (tokens_one_separator cls); exact Halt |].
  split; [apply (tokens_end_with_separator cls); exact Halt |].
  intros u f -> Hu Hf Hnb.
  pose proof (last_sep_split_app cls u f Hu Hf) as Hlast.
  rewrite (tokens_last_piece cls); [exact Hlast | exact Halt |].
  etransitivity; [apply (f_equal nonblank); exact Hlast | exact Hnb].
Qed.

Lemma sentence_tokenization_witness :
  sep_chars [str "."] <> []
  /\ exists sents, split_by_sentences (str "a. b") [str "."] = Some sents
       /\ non_ws (concat sents) = non_ws (str "a. b").
Proof.
  assert (H : sep_chars [str "."] <> []) by discriminate.
  split; [exact H |].
  destruct (sentence_tokenization (str "a. b") [str "."] H)
    as [sents [Hs [_ [Hw _]]]].
  exists sents. split; [exact Hs | exact Hw].
Defined.

(** * Accumulation invariants *)

Lemma split_by_sentences_props (text : pystr) (seps : list pystr) (sents : list pystr) :
  split_by_sentences text seps = Some sents ->
  Forall (fun s => nonblank s = true) sents /\ non_ws (concat sents) = non_ws text.
Proof.
  intros H.
  destruct (list_eq_dec N.eq_dec (sep_chars seps) []) as [E | Hne].
  { unfold split_by_sentences in H. rewrite E in H. discriminate. }
  rewrite split_by_sentences_tokens in H by exact Hne. injection H as <-.
  pose proof (sep_split_alternating (sep_chars seps) text) as Halt.
  split; [apply (tokens_nonblank (sep_chars seps)); exact Halt |].
  rewrite (tokens_non_ws (sep_chars seps)) by exact Halt.
  rewrite concat_sep_split. reflexivity.
Qed.

Lemma concat_push (segs : list pystr) (s : pystr) :
  concat (if truthy s then segs ++ [s] else segs) = concat segs ++ s.
Proof.
  destruct s as [|c s]; simpl; [rewrite app_nil_r; reflexivity |].
  rewrite concat_app. simpl. rewrite app_nil_r. reflexivity.
Qed.

Lemma accumulate_concat (T : Z) (sents segs : list pystr) (temp : pystr)
    (segs' : list pystr) (temp' : pystr) :
  accumulate_sentences T sents segs temp = (segs', temp') ->
  concat segs' ++ temp' = concat segs ++ temp ++ concat sents.
Proof.
  revert segs temp. induction sents as [|s sents IH]; intros segs temp H; simpl in H.
  - injection H as <- <-. simpl. rewrite app_nil_r. reflexivity.
  - destruct (_ <=? T)%Z.
    + rewrite (IH _ _ H). simpl. rewrite !app_assoc. reflexivity.
    + rewrite (IH _ _ H), concat_push. simpl. rewrite !app_assoc. reflexivity.
Qed.

Lemma Forall_push (segs : list pystr) (s : pystr) :
  Forall (fun x => nonblank x = true) segs -> seg_ok s ->
  Forall (fun x => nonblank x = true) (if truthy s then segs ++ [s] else segs).
Proof.
  intros Hsegs Hs. destruct (truthy s) eqn:E; [| exact Hsegs].
  apply Forall_app. split; [exact Hsegs | constructor; [apply Hs; exact E | constructor]].
Qed.

Lemma accumulate_nonblank (T : Z) (sents segs : list pystr) (temp : pystr)
    (segs' : list pystr) (temp' : pystr) :
  accumulate_sentences T sents segs temp = (segs', temp') ->
  Forall (fun x => nonblank x = true) segs -> seg_ok temp ->
  Forall (fun x => nonblank x = true) sents ->
  Forall (fun x => nonblank x = true) segs' /\ seg_ok temp'.
Proof.
  revert segs temp. induction sents as [|s sents IH]; intros segs temp H Hsegs Htemp Hsents;
    simpl in H.
  - injection H as <- <-. split; assumption.
  - inversion Hsents as [|? ? Hs Hrest]; subst.
    destruct (_ <=? T)%Z.
    + apply (IH _ _ H Hsegs); [| exact Hrest].
      intros _. apply nonblank_app_r. exact Hs.
    + apply (IH _ _ H); [apply Forall_push; assumption | intros _; exact Hs | exact Hrest].
Qed.

Lemma smart_step_non_ws (T : Z) (seps : list pystr) (segs : list pystr) (cur p : pystr)
    (segs' : list pystr) (cur' : pystr) :
  smart_step T seps (segs, cur) p = Some (segs', cur') ->
  non_ws (concat segs' ++ cur') = non_ws (concat segs ++ cur) ++ non_ws p.
Proof.
  unfold smart_step. intros H.
  pose proof (non_ws_strip p) as Hq. set (q := strip p) in *.
  destruct (truthy q) eqn:Eq; simpl in H; swap 1 2.
  { injection H as <- <-. destruct q; [| discriminate].
    rewrite <- Hq. simpl. rewrite app_nil_r. reflexivity. }
  destruct (_ <=? T)%Z.
  - injection H as <- <-. rewrite <- Hq.
    destruct (truthy cur) eqn:Ec.
    + rewrite !non_ws_app.
      replace (non_ws (nl :: nl :: q)) with (non_ws q) by reflexivity.
      rewrite app_assoc. reflexivity.
    + destruct cur; [| discriminate]. rewrite !app_nil_r, non_ws_app. reflexivity.
  - destruct (T <? _)%Z.
    + destruct (split_by_sentences q seps) as [sents|] eqn:Es; [| discriminate].
      injection H as Hacc.
      rewrite (accumulate_concat _ _ _ _ _ _ Hacc), concat_push.
      destruct (split_by_sentences_props _ _ _ Es) as [_ Hw].
      simpl. rewrite !non_ws_app, Hw, Hq. reflexivity.
    + injection H as <- <-. rewrite concat_push, !non_ws_app, Hq. reflexivity.
Qed.

Lemma smart_step_nonblank (T : Z) (seps : list pystr) (segs : list pystr) (cur p : pystr)
    (segs' : list pystr) (cur' : pystr) :
  smart_step T seps (segs, cur) p = Some (segs', cur') ->
  Forall (fun x => nonblank x = true) segs -> seg_ok cur ->
  Forall (fun x => nonblank x = true) segs' /\ seg_ok cur'.
Proof.
  unfold smart_step. intros H Hsegs Hcur.
  pose proof (strip_nonblank p) as Hq. set (q := strip p) in *.
  destruct (truthy q) eqn:Eq; simpl in H; swap 1 2.
  { injection H as <- <-. split; assumption. }
  specialize (Hq eq_refl).
  destruct (_ <=? T)%Z.
  - injection H as <- <-. split; [exact Hsegs |]. intros _.
    destruct (truthy cur); [apply nonblank_app_r; apply (nonblank_app_r [nl; nl]) |]; exact Hq.
  - destruct (T <? _)%Z.
    + destruct (split_by_sentences q seps) as [sents|] eqn:Es; [| discriminate].
      injection H as Hacc.
      destruct (split_by_sentences_props _ _ _ Es) as [Hnb _].
      apply (accumulate_nonblank _ _ _ _ _ _ Hacc); [| intros Hf; discriminate Hf | exact Hnb].
      apply Forall_push; assumption.
    + injection H as <- <-. split; [apply Forall_push; assumption | intros _; exact Hq].
Qed.

Lemma smart_loop_props (T : Z) (seps : list pystr) (ps : list pystr)
    (segs : list pystr) (cur : pystr) (segs' : list pystr) (cur' : pystr) :
  smart_loop T seps ps (segs, cur) = Some (segs', cur') ->
  non_ws (concat segs' ++ cur') = non_ws (concat segs ++ cur) ++ non_ws (concat ps)
  /\ (Forall (fun x => nonblank x = true) segs -> seg_ok cur ->
      Forall (fun x => nonblank x = true) segs' /\ seg_ok cur').
Proof.
  revert segs cur. induction ps as [|p ps IH]; intros segs cur H; cbn [smart_loop] in H.
  - injection H as <- <-. simpl. rewrite app_nil_r. split; [reflexivity | auto].
  - destruct (smart_step T seps (segs, cur) p) as [[segs1 cur1]|] eqn:Es; [| discriminate].
    destruct (IH _ _ H) as [Hw Hnb].
    split.
    + rewrite Hw, (smart_step_non_ws _ _ _ _ _ _ _ Es). cbn [concat].
      rewrite (non_ws_app p), <- app_assoc. reflexivity.
    + intros Hsegs Hcur.
      destruct (smart_step_nonblank _ _ _ _ _ _ _ Es Hsegs Hcur). auto.
Qed.

Lemma finish_props (segs : list pystr) (cur : pystr) :
  concat (if truthy cur then segs ++ [cur] else segs) = concat segs ++ cur
  /\ (Forall (fun x => nonblank x = true) segs -> seg_ok cur ->
      Forall (fun x => nonblank x = true) (if truthy cur then segs ++ [cur] else segs)).
Proof. split; [apply concat_push | apply Forall_push]. Qed.

Lemma smart_split_props (content : pystr) (T : Z) (seps : list pystr) (segs : list pystr) :
  smart_split content T seps = Some segs ->
  non_ws (concat segs) = non_ws content
  /\ (nonblank content = true -> Forall (fun x => nonblank x = true) segs).
Proof.
  unfold smart_split. intros H.
  pose proof (split_paragraphs_non_ws content) as Hp.
  destruct (split_paragraphs content) as [|p ps] eqn:Eps.
  { injection H as <-. simpl. rewrite app_nil_r. split; [reflexivity | auto]. }
  destruct (smart_loop T seps (p :: ps) ([], [])) as [[segs1 cur1]|] eqn:El; [| discriminate].
  injection H as <-.
  destruct (smart_loop_props _ _ _ _ _ _ _ El) as [Hw Hnb].
  destruct (finish_props segs1 cur1) as [Hc Hf].
  split.
  - rewrite Hc, Hw, <- Hp. reflexivity.
  - intros _. destruct Hnb as [H1 H2]; [constructor | intros Hf0; discriminate Hf0 |].
    apply Hf; assumption.
Qed.

Lemma sentence_split_props (content : pystr) (T : Z) (seps : list pystr) (segs : list pystr) :
  sentence_split content T seps = Some segs ->
  non_ws (concat segs) = non_ws content /\ Forall (fun x => nonblank x = true) segs.
Proof.
  unfold sentence_split. intros H.
  destruct (split_by_sentences content seps) as [sents|] eqn:Es; [| discriminate].
  destruct (split_by_sentences_props _ _ _ Es) as [Hnb Hw].
  destruct (accumulate_sentences T sents [] []) as [segs1 cur1] eqn:Ea.
  injection H as <-.
  destruct (finish_props segs1 cur1) as [Hc Hf].
  pose proof (accumulate_concat _ _ _ _ _ _ Ea) as Hcat.
  destruct (accumulate_nonblank _ _ _ _ _ _ Ea (Forall_nil _) ltac:(intros Hf0; discriminate Hf0) Hnb)
    as [H1 H2].
  split.
  - rewrite Hc, Hcat, <- Hw. reflexivity.
  - apply Hf; assumption.
Qed.

Lemma length_split_concat (content : pystr) (T : Z) (segs : list pystr) :
  (1 <= T)%Z -> length_split content T = Some segs -> concat segs = content.
Proof.
  intros HT H. unfold length_split in H.
  destruct (Z.eqb_spec T 0) as [H0 | H0]; [lia |].
  destruct (Z.ltb_spec T 0) as [H1 | H1]; [lia |].
  injection H as <-.
  set (t := Z.to_nat T). assert (Ht : 0 < t) by lia.
  rewrite (length_slices_eq content t).
  erewrite concat_slices by exact Ht.
  apply firstn_all2.
  pose proof (Nat.div_mod_eq (length content + t - 1) t) as E.
  pose proof (Nat.mod_upper_bound (length content + t - 1) t ltac:(lia)) as M.
  nia.
Qed.

(** * Raw splits *)

Lemma raw_split_non_ws (content : pystr) (cfg : SplitConfig) (segs : list pystr) :
  (1 <= segment_length cfg)%Z -> raw_split content cfg = Some segs ->
  non_ws (concat segs) = non_ws content.
Proof.
  intros HT H. unfold raw_split in H.
  destruct (String.eqb (algorithm cfg) "smart").
  { apply (smart_split_props _ _ _ _ H). }
  destruct (String.eqb (algorithm cfg) "sentence").
  { apply (sentence_split_props _ _ _ _ H). }
  rewrite (length_split_concat _ _ _ HT H). reflexivity.
Qed.

Lemma raw_split_nonblank (content : pystr) (cfg : SplitConfig) (segs : list pystr) :
  (algorithm cfg = "smart"%string \/ algorithm cfg = "sentence"%string) ->
  nonblank content = true -> raw_split content cfg = Some segs ->
  Forall (fun x => nonblank x = true) segs.
Proof.
  intros Halg Hc H. unfold raw_split in H.
  destruct Halg as [E | E]; rewrite E in H; cbn in H.
  - apply (smart_split_props _ _ _ _ H). exact Hc.
  - apply (sentence_split_props _ _ _ _ H).
Qed.

(** C7 (amended): for every algorithm and [targetLength >= 1], removing
    whitespace from the concatenated segments gives the content with
    whitespace removed: every non-whitespace character is kept, in order,
    and only whitespace is added (joiners) or lost (trimmed paragraphs,
    blank sentences and fragments). *)
Theorem split_keeps_non_ws (content : pystr) (cfg : SplitConfig) :
  (1 <= segment_length cfg)%Z ->
  non_ws (concat (split_content content cfg)) = non_ws content.
Proof.
  intros HT.
  destruct (split_content_cases content cfg) as [E | [segs [Hraw [_ [[E _] | [E _]]]]]];
    rewrite E.
  - simpl. rewrite app_nil_r. reflexivity.
  - apply (raw_split_non_ws _ _ _ HT Hraw).
  - rewrite concat_tail_merge. apply (raw_split_non_ws _ _ _ HT Hraw).
Qed.

Lemma split_keeps_non_ws_witness :
  non_ws (concat (split_content (str " abcd") (cfg_test "smart" 3 1 4))) = non_ws (str " abcd").
Proof. apply split_keeps_non_ws. vm_compute. discriminate. Defined.

(** C8 (amended): with the [smart] or [sentence] algorithm,
    [maxSegments >= 1] and content that is not blank, every segment is
    non-blank after [strip()]. *)
Theorem split_segments_nonblank (content : pystr) (cfg : SplitConfig) :
  (algorithm cfg = "smart"%string \/ algorithm cfg = "sentence"%string) ->
  (1 <= max_segments cfg)%Z ->
  nonblank content = true ->
  Forall (fun s => nonblank s = true) (split_content content cfg).
Proof.
  intros Halg Hmax Hc.
  destruct (split_content_cases content cfg) as [E | [segs [Hraw [_ [[E _] | [E Hmany]]]]]];
    rewrite E.
  - constructor; [exact Hc | constructor].
  - apply (raw_split_nonblank _ _ _ Halg Hc Hraw).
  - pose proof (raw_split_nonblank _ _ _ Halg Hc Hraw) as HF.
    rewrite <- (py_take_drop segs (max_segments cfg - 1)) in HF.
    apply Forall_app in HF as [H1 H2].
    apply Forall_app. split; [exact H1 |].
    constructor; [| constructor].
    apply nonblank_concat; [| exact H2].
    intros E0. apply (f_equal (@length _)) in E0.
    unfold py_drop in E0. rewrite length_skipn, py_index_nonneg in E0 by lia.
    simpl in E0. lia.
Qed.

Lemma split_segments_nonblank_witness :
  Forall (fun s => nonblank s = true)
    (split_content (str "Hi. Yes! No.") (cfg_test "sentence" 4 1 2)).
Proof.
  apply split_segments_nonblank; [right; reflexivity | vm_compute; discriminate |].
  vm_compute. reflexivity.
Defined.

(** * Delivery *)




Lemma send_loop_abort (raises : nat -> bool) (sp : bool) (d : Q) (n k : nat) (rest : list pystr) (i : nat) :
  i + length rest = n -> i <= k < n -> raises k = true ->
  (forall j, i <= j < k -> raises j = false) ->
  sent_texts (send_loop raises sp d n i rest)
  = firstn (S (k - i)) (map (fun p => segment_text sp n (fst p) (snd p)) (combine (seq i (length rest)) rest))
  /\ segment_sends (send_loop raises sp d n i rest) = S (k - i)
  /\ count_sleeps (send_loop raises sp d n i rest) = k - i.
Proof.
  revert i. induction rest as [|seg rest IH]; intros i Hn Hk Hr Hbefore.
  { simpl in Hn. lia. }
  simpl in Hn. cbn [send_loop].
  destruct (Nat.eq_dec i k) as [-> | Hne].
  - rewrite Hr. replace (k - k) with 0 by lia. simpl. repeat split.
  - rewrite (Hbefore i) by lia.
    destruct (IH (S i) ltac:(lia) ltac:(lia) Hr ltac:(intros j Hj; apply Hbefore; lia))
      as [Ht [Hs Hc]].
    destruct (Nat.ltb_spec i (n - 1)) as [Hlt | Hge]; [| lia].
    unfold sent_texts, count_sleeps, segment_sends in *. cbn.
    replace (k - i) with (S (k - S i)) by lia. cbn [firstn].
    rewrite Ht, Hs, Hc. repeat split.
Qed.

(** Delivery with a transport failure: when the [k]-th [send_text] raises and
    no earlier one does, exactly the first [k+1] segments are attempted, in
    order, with [k] sleeps; the remaining segments are never sent. *)
Theorem send_segments_abort (raises : nat -> bool) (sp : bool) (d : Q) (segments : list pystr) (k : nat) :
  k < length segments -> raises k = true -> (forall j, j < k -> raises j = false) ->
  let evs := send_segments raises sp d segments in
  sent_texts evs
  = firstn (S k) (map (fun p => segment_text sp (length segments) (fst p) (snd p))
                    (combine (seq 0 (length segments)) segments))
  /\ segment_sends evs = S k
  /\ count_sleeps evs = k.
Proof.
  intros Hk Hr Hb evs. unfold evs, send_segments.
  destruct (send_loop_abort raises sp d (length segments) k segments 0 eq_refl ltac:(lia) Hr
              ltac:(intros j Hj; apply Hb; lia)) as [Ht [Hs Hc]].
  rewrite Nat.sub_0_r in *. auto.
Qed.

(** * Content generation *)

Lemma non_ws_expand (content c2 : pystr) :
  non_ws (strip (content ++ [nl; nl] ++ strip c2)) = non_ws content ++ non_ws c2.
Proof.
  rewrite non_ws_strip, non_ws_app, non_ws_app, non_ws_strip. reflexivity.
Qed.

Lemma expand_loop_props (expansions : nat -> reply) (min_length : Z) (fuel retry : nat)
    (content content' : pystr) (r : nat) :
  expand_loop expansions min_length fuel retry content = Some (content', r) ->
  retry <= r <= retry + fuel /\ r <= Nat.max retry 2
  /\ non_ws content'
     = non_ws content ++ concat (map (fun j => non_ws (expansion_text (expansions j)))
                                  (seq retry (r - retry)))
  /\ (r = retry -> 0 < fuel -> (min_length <= Z.of_nat (length content))%Z \/ 2 <= retry)
  /\ (r < retry + fuel -> (min_length <= Z.of_nat (length content'))%Z \/ 2 <= r).
Proof.
  revert retry content. induction fuel as [|fuel IH]; intros retry content H.
  { simpl in H. injection H as <- <-. rewrite Nat.sub_diag. simpl. rewrite app_nil_r.
    repeat split; try lia. }
  cbn [expand_loop] in H.
  destruct (Z.ltb_spec (Z.of_nat (length content)) min_length) as [Hs | Hl];
    destruct (Nat.ltb_spec retry 2) as [Hr | Hr]; cbn [andb] in H.
  2, 3, 4: injection H as <- <-; rewrite Nat.sub_diag; simpl; rewrite app_nil_r;
    repeat split; lia.
  destruct (expansions retry) as [| ok c] eqn:Ee; [discriminate H |].
  rewrite <- Ee in H.
  match type of H with expand_loop _ _ _ _ ?c = _ =>
    assert (Hc : non_ws c = non_ws content ++ non_ws (expansion_text (expansions retry))) end.
  { unfold expansion_text. destruct (reply_text (expansions retry)) as [c2|].
    - apply non_ws_expand.
    - rewrite app_nil_r. reflexivity. }
  destruct (IH _ _ H) as [B1 [B2 [B3 [B4 B5]]]].
  rewrite (Nat.max_r (S retry) 2) in B2 by lia. rewrite (Nat.max_r retry 2) by lia.
  split; [lia|]. split; [lia|]. split. 2: split; [intros; lia|].
  - rewrite B3, Hc, <- app_assoc. f_equal.
    replace (r - retry) with (S (r - S retry)) by lia. reflexivity.
  - intros Hlt. apply B5. lia.
Qed.

(** The expansion loop of [_generate_detailed_content]: at most two extra
    generation calls; none when the first reply is already long enough;
    fewer than two only when the content reached [min_length]; and the
    content only grows by appending: its non-whitespace text is the first
    reply's followed by the successful expansion replies', in call order. *)
Theorem expansion_loop_behaviour (expansions : nat -> reply) (min_length : Z)
    (content content' : pystr) (calls : nat) :
  expand_loop expansions min_length 2 0 content = Some (content', calls) ->
  calls <= 2
  /\ (calls = 0 <-> (min_length <= Z.of_nat (length content))%Z)
  /\ (calls < 2 -> (min_length <= Z.of_nat (length content'))%Z)
  /\ non_ws content'
     = non_ws content ++ concat (map (fun j => non_ws (expansion_text (expansions j))) (seq 0 calls)).
Proof.
  intros H.
  destruct (expand_loop_props _ _ _ _ _ _ _ H) as [B1 [B2 [B3 [B4 B5]]]].
  rewrite Nat.sub_0_r in B3.
  simpl in B2. split; [lia |]. split; [split |]; [| | split; [| exact B3]].
  - intros H0. destruct (B4 H0 ltac:(lia)); lia.
  - intros Hl. destruct calls as [|c]; [reflexivity |].
    cbn [expand_loop] in H.
    destruct (Z.ltb_spec (Z.of_nat (length content)) min_length); [lia |].
    simpl in H. injection H as _ E. discriminate E.
  - intros Hlt. destruct (B5 ltac:(lia)); lia.
Qed.

Lemma expansion_loop_behaviour_witness :
  expand_loop (fun _ => Reply true (Some (str "defg"))) 6 2 0 (str "abc")
    = Some (str "abc" ++ [nl; nl] ++ str "defg", 1)
  /\ 1 <= 2
  /\ (1 = 0 <-> (6 <= Z.of_nat (length (str "abc")))%Z)
  /\ (1 < 2 -> (6 <= Z.of_nat (length (str "abc" ++ [nl; nl] ++ str "defg")))%Z)
  /\ non_ws (str "abc" ++ [nl; nl] ++ str "defg")
     = non_ws (str "abc") ++ concat (map (fun j => non_ws (expansion_text
          ((fun _ => Reply true (Some (str "defg"))) j))) (seq 0 1)).
Proof.
  assert (H : expand_loop (fun _ => Reply true (Some (str "defg"))) 6 2 0 (str "abc")
    = Some (str "abc" ++ [nl; nl] ++ str "defg", 1)) by reflexivity.
  split; [exact H | apply (expansion_loop_behaviour _ _ _ _ _ H)].
Defined.

Lemma generate_success (first : reply) (expansions : nat -> reply) (min_length max_length : Z)
    (out : pystr) (calls : nat) :
  generate_content first expansions min_length max_length = ((true, out), calls) ->
  exists c content,
    reply_text first = Some c
    /\ expand_loop expansions min_length 2 0 (strip c) = Some (content, calls)
    /\ out = (if (max_length <? Z.of_nat (length content))%Z
              then py_take content max_length ++ str "..." else content).
Proof.
  unfold generate_content. intros H.
  destruct first as [| ok c0]; [discriminate H |].
  destruct (reply_text (Reply ok c0)) as [c|] eqn:Ec; [| discriminate H].
  destruct (expand_loop expansions min_length 2 0 (strip c)) as [[content k]|] eqn:Ee;
    [| discriminate H].
  injection H as <- <-. exists c, content. auto.
Qed.

(** [_generate_detailed_content] on success: the first reply was usable
    ([success] with non-empty content), at most two expansion calls were
    made, none when its stripped text already had [min_length] characters,
    and, unless the result was truncated, the result's non-whitespace text
    is the first reply's followed by the successful expansion replies'. *)
Theorem generate_content_success (first : reply) (expansions : nat -> reply)
    (min_length max_length : Z) (out : pystr) (calls : nat) :
  generate_content first expansions min_length max_length = ((true, out), calls) ->
  exists c, reply_text first = Some c
    /\ calls <= 2
    /\ (calls = 0 <-> (min_length <= Z.of_nat (length (strip c)))%Z)
    /\ ((Z.of_nat (length out) <= max_length)%Z ->
        non_ws out = non_ws c ++ concat (map (fun j => non_ws (expansion_text (expansions j)))
                                           (seq 0 calls))).
Proof.
  intros H. destruct (generate_success _ _ _ _ _ _ H) as [c [content [Hc [He Ho]]]].
  destruct (expansion_loop_behaviour _ _ _ _ _ He) as [B1 [B2 [_ B4]]].
  exists c. split; [exact Hc |]. split; [exact B1 |]. split; [exact B2 |].
  intros Hle. rewrite <- non_ws_strip with (s := c), <- B4. subst out.
  destruct (Z.ltb_spec max_length (Z.of_nat (length content))) as [Hgt | _]; [| reflexivity].
  exfalso. rewrite length_app in Hle. simpl in Hle.
  assert (length (py_take content max_length) = py_index content max_length) as Hpl
    by (unfold py_take; rewrite length_firstn; unfold py_index;
        destruct (Z.ltb_spec max_length 0); lia).
  rewrite Hpl in Hle. unfold py_index in Hle.
  destruct (Z.ltb_spec max_length 0); lia.
Qed.

Lemma generate_content_success_witness :
  generate_content (Reply true (Some (str " abc "))) (fun _ => Reply true (Some (str "defg"))) 6 20
    = ((true, str "abc" ++ [nl; nl] ++ str "defg"), 1)
  /\ exists c, reply_text (Reply true (Some (str " abc "))) = Some c
    /\ 1 <= 2
    /\ (1 = 0 <-> (6 <= Z.of_nat (length (strip c)))%Z)
    /\ ((Z.of_nat (length (str "abc" ++ [nl; nl] ++ str "defg")) <= 20)%Z ->
        non_ws (str "abc" ++ [nl; nl] ++ str "defg")
        = non_ws c ++ concat (map (fun j => non_ws (expansion_text
            ((fun _ => Reply true (Some (str "defg"))) j))) (seq 0 1))).
Proof.
  assert (H : generate_content (Reply true (Some (str " abc "))) (fun _ => Reply true (Some (str "defg"))) 6 20
    = ((true, str "abc" ++ [nl; nl] ++ str "defg"), 1)) by reflexivity.
  split; [exact H | apply (generate_content_success _ _ _ _ _ _ H)].
Defined.







(** * [execute] *)

Lemma segment_sends_app (a b : list event) :
  segment_sends (a ++ b) = segment_sends a + segment_sends b.
Proof. unfold segment_sends. rewrite filter_app, length_app. reflexivity. Qed.

Lemma segment_sends_step (t : pystr) (sleeps evs : list event) :
  segment_sends sleeps = 0 ->
  segment_sends (SendText t false :: sleeps ++ evs) = S (segment_sends evs).
Proof.
  intros H. change (SendText t false :: sleeps ++ evs) with ([SendText t false] ++ sleeps ++ evs).
  rewrite !segment_sends_app, H. reflexivity.
Qed.

Lemma sleeps_no_send (b : bool) (d : Q) :
  segment_sends (if b then [Sleep d] else []) = 0.
Proof. destruct b; reflexivity. Qed.

Lemma send_loop_segment_sends (raises : nat -> bool) (sp : bool) (d : Q) (n i : nat)
    (rest : list pystr) :
  segment_sends (send_loop raises sp d n i rest) <= length rest
  /\ ((forall j, raises j = false) -> segment_sends (send_loop raises sp d n i rest) = length rest).
Proof.
  revert i. induction rest as [|seg rest IH]; intros i; [split; [apply le_n | reflexivity] |].
  cbn [send_loop]. destruct (IH (S i)) as [IH1 IH2]. destruct (raises i) eqn:Er.
  - split; [change (1 <= S (length rest)); lia |]. intros Hno. rewrite Hno in Er. discriminate Er.
  - rewrite segment_sends_step by apply sleeps_no_send. simpl length.
    split; [lia | intros Hno; rewrite (IH2 Hno); reflexivity].
Qed.

Lemma segment_sends_hint (acfg : ActionConfig) :
  segment_sends (if show_start_hint acfg
                 then [SendText (start_hint_message acfg) true; Sleep (1 # 2)] else []) = 0.
Proof. destruct (show_start_hint acfg); reflexivity. Qed.

(** A failed [execute] (disabled, start hint raised, or generation failed)
    sends no segment: at most the start hint goes out. *)
Theorem execute_failure_sends_no_segment (acfg : ActionConfig) (first : reply)
    (expansions : nat -> reply) (hint_raises : bool) (seg_raises : nat -> bool)
    (evs : list event) (msg : exec_message) :
  execute acfg first expansions hint_raises seg_raises = (evs, (false, msg)) ->
  segment_sends evs = 0
  /\ incl (sent_texts evs) [start_hint_message acfg]
  /\ (forall k, msg <> MsgSent k).
Proof.
  unfold execute. intros H.
  destruct (negb (enable acfg)).
  { injection H as <- <-. split; [reflexivity | split; [intros x [] | discriminate]]. }
  destruct (show_start_hint acfg && hint_raises).
  { injection H as <- <-. split; [reflexivity | split; [| discriminate]].
    intros x [<- | []]. left. reflexivity. }
  destruct (generate_content first expansions (min_total_length acfg) (max_total_length acfg))
    as [[success c] k].
  destruct (negb success || negb (truthy c)).
  - injection H as <- <-. split; [apply segment_sends_hint | split; [| discriminate]].
    destruct (show_start_hint acfg); simpl.
    + intros x [<- | []]. left. reflexivity.
    + intros x [].
  - injection H as _ E. discriminate E.
Qed.

Lemma execute_failure_sends_no_segment_witness :
  execute {| enable := true; show_start_hint := true; start_hint_message := str "hint";
             min_total_length := 200; max_total_length := 2400; show_progress := true;
             send_delay := 3 # 2; split_cfg := cfg_test "smart" 400 1 4 |}
          (Reply false None) (fun _ => Raised) false (fun _ => false)
    = ([SendText (str "hint") true; Sleep (1 # 2)], (false, MsgGenerationFailed))
  /\ segment_sends [SendText (str "hint") true; Sleep (1 # 2)] = 0
  /\ incl (sent_texts [SendText (str "hint") true; Sleep (1 # 2)]) [str "hint"]
  /\ (forall k, MsgGenerationFailed <> MsgSent k).
Proof.
  assert (H : execute {| enable := true; show_start_hint := true; start_hint_message := str "hint";
             min_total_length := 200; max_total_length := 2400; show_progress := true;
             send_delay := 3 # 2; split_cfg := cfg_test "smart" 400 1 4 |}
          (Reply false None) (fun _ => Raised) false (fun _ => false)
    = ([SendText (str "hint") true; Sleep (1 # 2)], (false, MsgGenerationFailed))) by reflexivity.
  split; [exact H | apply (execute_failure_sends_no_segment _ _ _ _ _ _ _ H)].
Defined.

(** A successful [execute] reports [len(segments)] for the segments of the
    generated content, whether or not their delivery completed: the segment
    sends that took place are at most that many, and exactly that many when
    no [send_text] raises. *)
Theorem execute_success_report (acfg : ActionConfig) (first : reply)
    (expansions : nat -> reply) (hint_raises : bool) (seg_raises : nat -> bool)
    (evs : list event) (msg : exec_message) :
  execute acfg first expansions hint_raises seg_raises = (evs, (true, msg)) ->
  exists content calls,
    generate_content first expansions (min_total_length acfg) (max_total_length acfg)
      = ((true, content), calls)
    /\ truthy content = true
    /\ msg = MsgSent (length (split_content content (split_cfg acfg)))
    /\ segment_sends evs <= length (split_content content (split_cfg acfg))
    /\ ((forall i, seg_raises i = false) ->
        segment_sends evs = length (split_content content (split_cfg acfg))).
Proof.
  unfold execute. intros H.
  destruct (negb (enable acfg)); [discriminate H |].
  destruct (show_start_hint acfg && hint_raises); [discriminate H |].
  destruct (generate_content first expansions (min_total_length acfg) (max_total_length acfg))
    as [[success c] k] eqn:Eg.
  destruct success; [| discriminate H].
  destruct (truthy c) eqn:Ec; [| discriminate H].
  simpl in H. injection H as <- <-.
  exists c, k. split; [reflexivity | split; [exact Ec | split; [reflexivity |]]].
  rewrite segment_sends_app, segment_sends_hint. simpl. unfold send_segments. split.
  - apply send_loop_segment_sends.
  - apply send_loop_segment_sends.
Qed.

Lemma execute_success_report_witness :
  let acfg := {| enable := true; show_start_hint := false; start_hint_message := str "hint";
                 min_total_length := 0; max_total_length := 2400; show_progress := true;
                 send_delay := 3 # 2; split_cfg := cfg_test "sentence" 4 1 4 |} in
  let first := Reply true (Some (str "aaa.bbb.")) in
  let expansions := fun _ : nat => Raised in
  let seg_raises := fun i => Nat.eqb i 0 in
  execute acfg first expansions false seg_raises
    = ([SendText (str "(1/2) aaa.") false], (true, MsgSent 2))
  /\ exists content calls,
    generate_content first expansions (min_total_length acfg) (max_total_length acfg)
      = ((true, content), calls)
    /\ truthy content = true
    /\ MsgSent 2 = MsgSent (length (split_content content (split_cfg acfg)))
    /\ segment_sends [SendText (str "(1/2) aaa.") false]
       <= length (split_content content (split_cfg acfg))
    /\ ((forall i, seg_raises i = false) ->
        segment_sends [SendText (str "(1/2) aaa.") false]
        = length (split_content content (split_cfg acfg))).
Proof.
  intros acfg first expansions seg_raises.
  assert (H : execute acfg first expansions false seg_raises
    = ([SendText (str "(1/2) aaa.") false], (true, MsgSent 2))) by (vm_compute; reflexivity).
  split; [exact H | apply (execute_success_report _ _ _ _ _ _ _ H)].
Defined.

(** * Segment counts *)

(** [_split_content_into_segments] with [1 <= min_segments <= max_segments]
    never returns an empty list: it returns [[content]] or between
    [min_segments] and [max_segments] segments. *)
Theorem split_content_count (content : pystr) (cfg : SplitConfig) :
  (1 <= min_segments cfg)%Z -> (min_segments cfg <= max_segments cfg)%Z ->
  split_content content cfg <> []
  /\ (split_content content cfg = [content]
      \/ (min_segments cfg <= Z.of_nat (length (split_content content cfg))
           <= max_segments cfg)%Z).
Proof.
  intros Hmin Hle.
  destruct (split_content_cases content cfg) as [E | [segs [_ [Hm [[E Hx] | [E Hx]]]]]].
  - rewrite E. split; [discriminate | left; reflexivity].
  - rewrite E. split; [| right; lia].
    intros ->. simpl in Hm. lia.
  - rewrite E. split; [destruct (py_take segs (max_segments cfg - 1)); discriminate |].
    right. rewrite length_app, py_take_length by lia. simpl. lia.
Qed.

Lemma split_content_count_witness :
  (1 <= min_segments (cfg_test "length" 3 1 2))%Z
  /\ (min_segments (cfg_test "length" 3 1 2) <= max_segments (cfg_test "length" 3 1 2))%Z
  /\ split_content (repeat_str "A" 10) (cfg_test "length" 3 1 2) <> []
  /\ (split_content (repeat_str "A" 10) (cfg_test "length" 3 1 2) = [repeat_str "A" 10]
      \/ (min_segments (cfg_test "length" 3 1 2)
           <= Z.of_nat (length (split_content (repeat_str "A" 10) (cfg_test "length" 3 1 2)))
           <= max_segments (cfg_test "length" 3 1 2))%Z).
Proof.
  assert (H1 : (1 <= min_segments (cfg_test "length" 3 1 2))%Z) by (simpl; lia).
  assert (H2 : (min_segments (cfg_test "length" 3 1 2) <= max_segments (cfg_test "length" 3 1 2))%Z)
    by (simpl; lia).
  split; [exact H1 | split; [exact H2 |]].
  apply (split_content_count _ _ H1 H2).
Defined.

(** With [max_segments = 0] the tail merge [segments[:-1] + ["".join(segments[-1:])]]
    rebuilds the list unchanged: the cap is not applied and the raw
    segments are returned as they are (or [[content]]). *)
Theorem split_content_max_zero (content : pystr) (cfg : SplitConfig) :
  max_segments cfg = 0%Z ->
  split_content content cfg = [content]
  \/ raw_split content cfg = Some (split_content content cfg).
Proof.
  intros H0.
  destruct (split_content_cases content cfg) as [E | [segs [Hr [_ [[E _] | [E Hx]]]]]].
  - left. exact E.
  - right. rewrite E. exact Hr.
  - right. rewrite Hr, E, H0. f_equal.
    destruct segs as [|x segs] using rev_ind; [simpl in Hx; lia |].
    unfold py_take, py_drop, py_index. rewrite length_app. simpl.
    replace (Z.to_nat (Z.max 0 (Z.of_nat (length segs + 1) + -1))) with (length segs) by lia.
    rewrite firstn_app, skipn_app, firstn_all, skipn_all, !Nat.sub_diag.
    simpl. rewrite !app_nil_r. reflexivity.
Qed.

Lemma split_content_max_zero_witness :
  max_segments (cfg_test "length" 3 1 0) = 0%Z
  /\ split_content (repeat_str "A" 7) (cfg_test "length" 3 1 0)
     = [repeat_str "A" 3; repeat_str "A" 3; repeat_str "A" 1]
  /\ (split_content (repeat_str "A" 7) (cfg_test "length" 3 1 0) = [repeat_str "A" 7]
      \/ raw_split (repeat_str "A" 7) (cfg_test "length" 3 1 0)
          = Some (split_content (repeat_str "A" 7) (cfg_test "length" 3 1 0))).
Proof.
  split; [reflexivity | split; [vm_compute; reflexivity |]].
  apply (split_content_max_zero (repeat_str "A" 7) (cfg_test "length" 3 1 0) eq_refl).
Defined.

(** * Segment sizes *)

Lemma accumulate_size (T : Z) (S0 sents segs : list pystr) (temp : pystr)
    (segs' : list pystr) (temp' : pystr) :
  accumulate_sentences T sents segs temp = (segs', temp') ->
  incl sents S0 ->
  Forall (fun s => (Z.of_nat (length s) <= T)%Z \/ In s S0) segs ->
  (temp = [] \/ (Z.of_nat (length temp) <= T)%Z \/ In temp S0) ->
  Forall (fun s => (Z.of_nat (length s) <= T)%Z \/ In s S0) segs'
  /\ (temp' = [] \/ (Z.of_nat (length temp') <= T)%Z \/ In temp' S0).
Proof.
  revert segs temp. induction sents as [|s sents IH]; intros segs temp H Hin Hsegs Htemp;
    simpl in H.
  { injection H as <- <-. auto. }
  destruct (Z.leb_spec (Z.of_nat (length (temp ++ s))) T) as [Hfit | Hover].
  - apply (IH _ _ H); [intros x Hx; apply Hin; right; exact Hx | exact Hsegs | auto].
  - apply (IH _ _ H); [intros x Hx; apply Hin; right; exact Hx | | right; right; apply Hin; left; reflexivity].
    destruct temp as [|c temp]; [exact Hsegs |].
    apply Forall_app. split; [exact Hsegs |]. constructor; [| constructor].
    destruct Htemp as [E | Ht]; [discriminate E | exact Ht].
Qed.

(** [_sentence_split]: every segment fits [target_length] unless it is a
    single sentence of the tokenizer that is itself longer. *)
Theorem sentence_split_segment_size (content : pystr) (T : Z) (seps sentences segs : list pystr) :
  split_by_sentences content seps = Some sentences ->
  sentence_split content T seps = Some segs ->
  Forall (fun s => (Z.of_nat (length s) <= T)%Z \/ In s sentences) segs.
Proof.
  unfold sentence_split. intros Hs H. rewrite Hs in H.
  destruct (accumulate_sentences T sentences [] []) as [segs1 cur] eqn:Ea.
  injection H as <-.
  destruct (accumulate_size T sentences _ _ _ _ _ Ea (fun x Hx => Hx) (Forall_nil _)
              (or_introl eq_refl)) as [H1 H2].
  destruct cur as [|c cur]; [exact H1 |].
  apply Forall_app. split; [exact H1 | constructor; [| constructor]].
  destruct H2 as [E | H2]; [discriminate E | exact H2].
Qed.

Lemma sentence_split_segment_size_witness :
  split_by_sentences (str "aaaaaa.b.c.") default_separators
    = Some [str "aaaaaa."; str "b."; str "c."]
  /\ sentence_split (str "aaaaaa.b.c.") 4 default_separators
    = Some [str "aaaaaa."; str "b.c."]
  /\ Forall (fun s => (Z.of_nat (length s) <= 4)%Z \/ In s [str "aaaaaa."; str "b."; str "c."])
       [str "aaaaaa."; str "b.c."].
Proof.
  assert (H1 : split_by_sentences (str "aaaaaa.b.c.") default_separators
    = Some [str "aaaaaa."; str "b."; str "c."]) by (vm_compute; reflexivity).
  assert (H2 : sentence_split (str "aaaaaa.b.c.") 4 default_separators
    = Some [str "aaaaaa."; str "b.c."]) by (vm_compute; reflexivity).
  split; [exact H1 | split; [exact H2 |]].
  apply (sentence_split_segment_size _ _ _ _ _ H1 H2).
Defined.

(** [_length_split] with [target_length >= 1] cuts [content] into
    [ceil(len(content) / target_length)] non-empty slices of at most
    [target_length] characters. *)
Theorem length_split_shape (content : pystr) (T : Z) (segs : list pystr) :
  (1 <= T)%Z -> length_split content T = Some segs ->
  length segs = (length content + Z.to_nat T - 1) / Z.to_nat T
  /\ Forall (fun s => 1 <= length s /\ (Z.of_nat (length s) <= T)%Z) segs.
Proof.
  intros HT H. unfold length_split in H.
  destruct (Z.eqb_spec T 0) as [H0 | H0]; [lia |].
  destruct (Z.ltb_spec T 0) as [H1 | H1]; [lia |].
  injection H as <-.
  set (t := Z.to_nat T). assert (Ht : 0 < t) by lia.
  rewrite (length_slices_eq content t). rewrite length_map, length_seq.
  split; [reflexivity |].
  apply Forall_forall. intros x Hx. apply in_map_iff in Hx as [k [<- Hk]].
  apply in_seq in Hk.
  assert (Hpos : 0 < length content).
  { destruct content as [|c content]; [| simpl; lia].
    simpl in Hk. rewrite Nat.div_small in Hk by lia. lia. }
  destruct (slice_count_bounds t Ht (length content) Hpos) as [_ [Hlast _]].
  unfold py_slice. rewrite length_firstn, length_skipn.
  assert (k * t < length content) by nia.
  split; [lia |]. replace (k * t + t - k * t) with t by lia. lia.
Qed.

Lemma length_split_shape_witness :
  (1 <= 3)%Z
  /\ length_split (repeat_str "A" 7) 3 = Some [repeat_str "A" 3; repeat_str "A" 3; repeat_str "A" 1]
  /\ length [repeat_str "A" 3; repeat_str "A" 3; repeat_str "A" 1]
     = (length (repeat_str "A" 7) + Z.to_nat 3 - 1) / Z.to_nat 3
  /\ Forall (fun s => 1 <= length s /\ (Z.of_nat (length s) <= 3)%Z)
       [repeat_str "A" 3; repeat_str "A" 3; repeat_str "A" 1].
Proof.
  assert (H1 : (1 <= 3)%Z) by lia.
  assert (H2 : length_split (repeat_str "A" 7) 3
    = Some [repeat_str "A" 3; repeat_str "A" 3; repeat_str "A" 1]) by (vm_compute; reflexivity).
  split; [exact H1 | split; [exact H2 |]].
  apply (length_split_shape _ _ _ H1 H2).
Defined.


